(** * Synthetic outlier data: [deepod/utils/data.py]

    A shallow embedding of the two functions of the module:

    - [_generate_data], the sampler: Gaussian inlier rows, uniform outlier
      rows, then optional all-NaN and all-infinity rows, with the parallel
      label vector;
    - [generate_data], the generator: derives [offset_] and [coef_] from the
      random state, splits [n_train] (and [n_test]) by [contamination], and
      calls the sampler once or twice on the same random state.

    Numbers are the code's: Python integers are [Z], array cells and labels
    are binary64 values (the kernel's [float], so that [nan], [infinity] and
    rounding are the machine's).  The pseudo-random generator is numpy's
    [RandomState]; it is not part of the repository and is taken as an
    interface ([Mtrand]) of per-draw step functions on its state.  Python
    exceptions are the [Raise] results. *)

From Stdlib Require Import ZArith List Bool Lia Floats.
Import ListNotations.
Local Open Scope Z_scope.

(** ** Exceptions and results *)

Inductive exn : Set :=
| ValueError
| OverflowError.

Inductive result (A : Type) : Type :=
| Ok (a : A)
| Raise (e : exn).

Arguments Ok {A} a.
Arguments Raise {A} e.

Definition is_ok {A : Type} (r : result A) : bool :=
  match r with Ok _ => true | Raise _ => false end.

(** The value a call returns, the state it leaves aside. *)
Definition returned {A S : Type} (r : result (A * S)) : result A :=
  match r with
  | Ok (a, _) => Ok a
  | Raise e => Raise e
  end.

(** ** binary64 values *)

Module Float64.

(** The literal [0.001] of the source: the double nearest to 1/1000. *)
Definition milli : float := 0x1.0624dd2f1a9fcp-10%float.

(** The double nearest to 1001/1000. *)
Definition one_milli : float := 0x1.004189374bc6ap+0%float.


(** An integer cast to binary64, rounded to nearest even; too large a
    magnitude gives an infinity. *)
Definition of_Z (z : Z) : float :=
  SF2Prim (binary_normalize prec emax z 0 false).

(** Python's implicit [int -> float] in [int * float]: the same rounding,
    but [OverflowError] instead of an infinity. *)
Definition of_int (z : Z) : result float :=
  let f := of_Z z in
  if is_infinity f then Raise OverflowError else Ok f.

(** The integer part of a finite binary64 value, as [m * 2^e] truncated
    toward zero. *)
Definition trunc_SF (s : bool) (m : positive) (e : Z) : Z :=
  cond_Zopp s (if 0 <=? e then Z.shiftl (Z.pos m) e
               else Z.shiftr (Z.pos m) (- e)).

(** Python's [int(x)] on a float. *)
Definition to_int (f : float) : result Z :=
  match Prim2SF f with
  | S754_zero _ => Ok 0
  | S754_infinity _ => Raise OverflowError
  | S754_nan => Raise ValueError
  | S754_finite s m e => Ok (trunc_SF s m e)
  end.


End Float64.

(** ** Arrays *)

(** A one-dimensional array of doubles. *)
Definition vector := list float.

(** A two-dimensional array of doubles, as its rows (C order). *)
Definition matrix := list (list float).




(** [np.full((n,), v)], [np.zeros((n,))], [np.ones((n,))]. *)
Definition full_vec (n : Z) (v : float) : vector := repeat v (Z.to_nat n).

Definition zeros (n : Z) : vector := full_vec n 0%float.

Definition ones (n : Z) : vector := full_vec n 1%float.

(** [np.full((n, d), v)]. *)
Definition full (n d : Z) (v : float) : matrix :=
  repeat (repeat v (Z.to_nat d)) (Z.to_nat n).

(** [np.r_[a, b]] on arrays with the same trailing shape. *)
Definition r_ {A : Type} (a b : list A) : list A := a ++ b.

(** ** The random state *)

(** What the module uses of [numpy.random.RandomState] (the Mersenne Twister
    of randomkit): seeding, and one step function per kind of draw. *)
Class Mtrand : Type := {
  rk_state : Type;
  (** [RandomState(seed)] for a 32-bit seed *)
  rk_seed : Z -> rk_state;
  (** a double in [[0, 1)] *)
  rk_double : rk_state -> float * rk_state;
  (** a standard normal deviate *)
  rk_gauss : rk_state -> float * rk_state;
  (** an integer in [[0, max]] *)
  rk_interval : Z -> rk_state -> Z * rk_state;
  rk_double_range : forall s,
    (0 <=? fst (rk_double s))%float = true /\
    (fst (rk_double s) <? 1)%float = true;
  rk_interval_range : forall max s,
    0 <= max -> 0 <= fst (rk_interval max s) <= max
}.

(** The bound of the default integer type of [randint] (a C long). *)
Definition long_bound : Z := 2 ^ 63.

(** The seeds [RandomState] accepts. *)
Definition seed_bound : Z := 2 ^ 32.

Section Sampler.

Context {G : Mtrand}.

(** *** Computations on one random state *)

Definition Rand (A : Type) : Type := rk_state -> result (A * rk_state).

Definition ret {A : Type} (a : A) : Rand A := fun s => Ok (a, s).

Definition bind {A B : Type} (m : Rand A) (k : A -> Rand B) : Rand B :=
  fun s => match m s with
           | Ok (a, s') => k a s'
           | Raise e => Raise e
           end.

Definition raise {A : Type} (e : exn) : Rand A := fun _ => Raise e.

Definition draw {A : Type} (f : rk_state -> A * rk_state) : Rand A :=
  fun s => Ok (f s).

(** A pure step that may raise. *)
Definition lift {A : Type} (r : result A) : Rand A :=
  fun s => match r with Ok a => Ok (a, s) | Raise e => Raise e end.

End Sampler.

Declare Scope rand_scope.
Delimit Scope rand_scope with rand.
Notation "x <- m ;; k" := (bind m (fun x => k))
  (at level 100, m at next level, right associativity) : rand_scope.
Notation "' p <- m ;; k" := (bind m (fun p => k))
  (at level 100, p pattern, m at next level, right associativity) : rand_scope.
Local Open Scope rand_scope.

Section Draws.

Context {G : Mtrand}.

(** [k] successive draws, in order. *)
Fixpoint fill_vec (k : nat) (d : Rand float) : Rand vector :=
  match k with
  | O => ret []
  | S k' => x <- d ;; xs <- fill_vec k' d ;; ret (x :: xs)
  end.

(** [n] rows of [d] draws each, row after row. *)
Fixpoint fill_rows (n d : nat) (dr : Rand float) : Rand matrix :=
  match n with
  | O => ret []
  | S n' => r <- fill_vec d dr ;; rs <- fill_rows n' d dr ;; ret (r :: rs)
  end.

(** A shape with a negative dimension is refused. *)
Definition bad_shape (n d : Z) : bool := (n <? 0) || (d <? 0).

(** [random_state.random_sample()]. *)
Definition random_sample : Rand float := draw rk_double.

(** [random_state.randn(n, d)]. *)
Definition randn (n d : Z) : Rand matrix :=
  if bad_shape n d then raise ValueError
  else fill_rows (Z.to_nat n) (Z.to_nat d) (draw rk_gauss).

(** One cell of [uniform]: [loc + scale * rk_double()]. *)
Definition rk_uniform (loc scale : float) : Rand float :=
  u <- draw rk_double ;; ret (loc + scale * u)%float.

(** [random_state.uniform(low=low, high=high, size=(n, d))]: a range
    [high - low] that is not finite is refused, before the shape is looked
    at. *)
Definition uniform (low high : Z) (n d : Z) : Rand matrix :=
  let flow := Float64.of_Z low in
  let fscale := (Float64.of_Z high - flow)%float in
  if negb (is_finite fscale) then raise OverflowError
  else if bad_shape n d then raise ValueError
  else fill_rows (Z.to_nat n) (Z.to_nat d) (rk_uniform flow fscale).

(** [random_state.randint(low=low)]: an integer of [[0, low)]; an empty
    range, or a bound beyond a C long, is refused. *)
Definition randint (low : Z) : Rand Z :=
  if low <=? 0 then raise ValueError
  else if long_bound <? low then raise ValueError
  else draw (rk_interval (low - 1)).

(** [coef * A + offset], cell by cell. *)
Definition scale_shift (coef : float) (offset : Z) (A : matrix) : matrix :=
  map (map (fun g => (coef * g + Float64.of_Z offset)%float)) A.

(** *** The sampler *)

Definition _generate_data (n_inliers n_outliers n_features : Z)
    (coef : float) (offset : Z) (n_nan n_inf : Z) : Rand (matrix * vector) :=
  g <- randn n_inliers n_features ;;
  let inliers := scale_shift coef offset g in
  outliers <- uniform (-1 * offset) offset n_outliers n_features ;;
  let X := r_ inliers outliers in
  let y := r_ (zeros n_inliers) (ones n_outliers) in
  let '(X, y) :=
    if 0 <? n_nan
    then (r_ X (full n_nan n_features nan), r_ y (full_vec n_nan nan))
    else (X, y) in
  let '(X, y) :=
    if 0 <? n_inf
    then (r_ X (full n_inf n_features infinity),
          r_ y (full_vec n_inf infinity))
    else (X, y) in
  ret (X, y).

End Draws.

(** ** The generator *)

(** What [generate_data] returns: a pair when [train_only], else four
    arrays, in the order of the [return] statements. *)
Inductive dataset : Type :=
| Train (X_train : matrix) (y_train : vector)
| TrainTest (X_train X_test : matrix) (y_train y_test : vector).

(** The [random_state] argument: [None], an integer seed, numpy's global
    [RandomState] itself ([np.random], or the singleton behind it), or
    another [RandomState] object (its address in the store). *)
Inductive seed_arg : Set :=
| SeedNone
| SeedInt (z : Z)
| SeedGlobal
| SeedInstance (l : nat).

(** The random state a call works on: numpy's global one, or an object. *)
Inductive rs_ref : Set :=
| GlobalRS
| ObjRS (l : nat).

Section Generator.

Context {G : Mtrand}.

(** The random states alive around a call: the singleton behind
    [np.random] and the other [RandomState] objects of the program. *)
Record world : Type := {
  np_random : rk_state;
  objects : list rk_state
}.

Definition load (r : rs_ref) (w : world) : option rk_state :=
  match r with
  | GlobalRS => Some (np_random w)
  | ObjRS l => nth_error (objects w) l
  end.

Fixpoint set_nth {A : Type} (l : nat) (a : A) (xs : list A) : list A :=
  match xs, l with
  | [], _ => []
  | _ :: xs', O => a :: xs'
  | x :: xs', S l' => x :: set_nth l' a xs'
  end.

Definition store (r : rs_ref) (s : rk_state) (w : world) : world :=
  match r with
  | GlobalRS => {| np_random := s; objects := objects w |}
  | ObjRS l => {| np_random := np_random w;
                  objects := set_nth l s (objects w) |}
  end.

(** [sklearn.utils.check_random_state]: [None] is the global state, an
    integer seeds a new object, an object is itself (the global one
    included); anything else (here, an address that holds no object) is
    refused. *)
Definition check_random_state (seed : seed_arg) (w : world)
  : result (rs_ref * world) :=
  match seed with
  | SeedNone => Ok (GlobalRS, w)
  | SeedGlobal => Ok (GlobalRS, w)
  | SeedInt z =>
      if (0 <=? z) && (z <? seed_bound)
      then Ok (ObjRS (length (objects w)),
               {| np_random := np_random w;
                  objects := objects w ++ [rk_seed z] |})
      else Raise ValueError
  | SeedInstance l =>
      match nth_error (objects w) l with
      | Some _ => Ok (ObjRS l, w)
      | None => Raise ValueError
      end
  end.

(** [int(n * contamination)] for an integer [n] and a float. *)
Definition int_of_product (n : Z) (contamination : float) : result Z :=
  match Float64.of_int n with
  | Ok f => Float64.to_int (f * contamination)%float
  | Raise e => Raise e
  end.

(** Lines 149-150: [offset_] and [coef_]. *)
Definition derive_params (offset : Z) : Rand (Z * float) :=
  offset_ <- randint offset ;;
  u <- random_sample ;;
  let coef_ := (u + Float64.milli)%float in
  ret (offset_, coef_).

(** The body of [generate_data] on the random state it has obtained. *)
Definition generate_on (n_train n_test n_features : Z)
    (contamination : float) (train_only : bool) (offset : Z)
    (n_nan n_inf : Z) : Rand dataset :=
  '(offset_, coef_) <- derive_params offset ;;
  n_outliers_train <- lift (int_of_product n_train contamination) ;;
  let n_inliers_train := n_train - n_outliers_train in
  '(X_train, y_train) <-
    _generate_data n_inliers_train n_outliers_train n_features
                   coef_ offset_ n_nan n_inf ;;
  if train_only then ret (Train X_train y_train)
  else
    n_outliers_test <- lift (int_of_product n_test contamination) ;;
    let n_inliers_test := n_test - n_outliers_test in
    '(X_test, y_test) <-
      _generate_data n_inliers_test n_outliers_test n_features
                     coef_ offset_ n_nan n_inf ;;
    ret (TrainTest X_train X_test y_train y_test).

(** Running a computation on the random state [r] of the world. *)
Definition run_on {A : Type} (r : rs_ref) (m : Rand A) (w : world)
  : result (A * world) :=
  match load r w with
  | None => Raise ValueError
  | Some s =>
      match m s with
      | Ok (a, s') => Ok (a, store r s' w)
      | Raise e => Raise e
      end
  end.

Definition generate_data (n_train n_test n_features : Z)
    (contamination : float) (train_only : bool) (offset : Z)
    (random_state : seed_arg) (n_nan n_inf : Z) (w : world)
  : result (dataset * world) :=
  match check_random_state random_state w with
  | Raise e => Raise e
  | Ok (r, w') =>
      run_on r (generate_on n_train n_test n_features contamination
                            train_only offset n_nan n_inf) w'
  end.

End Generator.

Arguments world G : clear implicits.

(** ** What a call leaves behind *)

Section Observations.

Context {G : Mtrand}.

(** The state after [k] draws of step [f]. *)
Definition advance {A : Type} (f : rk_state -> A * rk_state) (k : nat)
    (s : rk_state) : rk_state :=
  Nat.iter k (fun t => snd (f t)) s.

(** A draw that never raises and moves the state as [f] does. *)
Definition steps_as {A : Type} (d : Rand float)
    (f : rk_state -> A * rk_state) : Prop :=
  forall s, exists x, d s = Ok (x, snd (f s)).

(** The range of [uniform(low=-offset, high=offset)] is finite. *)
Definition finite_range (offset : Z) : bool :=
  is_finite (Float64.of_Z offset - Float64.of_Z (-1 * offset)).


(** The random state a call of [generate_data] starts from, when it gets
    one. *)
Definition initial_state (random_state : seed_arg) (w : world G)
  : option rk_state :=
  match check_random_state random_state w with
  | Ok (r, w') => load r w'
  | Raise _ => None
  end.





End Observations.

(** ** A small generator, to run the definitions

    Its state is a counter; draws alternate between two values.  It stands
    for no real generator: it instantiates the interface where a statement
    is evaluated on concrete data. *)

Module Toy.

Definition double (s : Z) : float * Z :=
  (if Z.even s then 0%float else 0.5%float, s + 1).

Definition gauss (s : Z) : float * Z :=
  (if Z.even s then (-1)%float else 1.5%float, s + 1).

Definition interval (max s : Z) : Z * Z := (s mod (max + 1), s + 1).

Definition gen : Mtrand := {|
  rk_state := Z;
  rk_seed := fun z => z;
  rk_double := double;
  rk_gauss := gauss;
  rk_interval := interval;
  rk_double_range := fun s =>
    ltac:(unfold double; destruct (Z.even s); split; reflexivity);
  rk_interval_range := fun max s Hmax =>
    ltac:(unfold interval; simpl;
          pose proof (Z.mod_pos_bound s (max + 1)); lia)
|}.

Definition w0 : world gen := @Build_world gen 7 [].

End Toy.

(** ** Constants of the binary64 format *)

(** The mantissas [m] of [Float64.milli] ([m * 2^-62]) and of
    [Float64.one_milli] ([m * 2^-52]). *)
Definition milli_mant : positive := 4611686018427388.

Definition one_milli_mant : positive := 4508103226997866.

(** ** What a generator call leaves behind *)

Section GeneratorObservations.

Context {G : Mtrand}.



(** Every cell of the array is [v]. *)
Definition all_cells (v : float) (X : matrix) : Prop :=
  Forall (Forall (fun x => x = v)) X.

End GeneratorObservations.

(** * Properties *)

(** ** Rounding in binary64

    [binary_round_aux] on a mantissa of at least 53 bits in the normal
    range: a shift by the excess bits, then rounding to nearest even.  It
    gives the bounds of [u + 0.001] for a draw [u] of [[0, 1)]. *)

Lemma iter_pos_nat {A : Type} (f : A -> A) (p : positive) (x : A) :
  iter_pos f p x = Nat.iter (Pos.to_nat p) f x.
Proof.
  revert x; induction p as [p IH|p IH|]; intros x; simpl iter_pos.
  - rewrite !IH, Pos2Nat.inj_xI.
    replace (S (2 * Pos.to_nat p)) with (Pos.to_nat p + S (Pos.to_nat p))%nat by lia.
    rewrite Nat.iter_add. f_equal. now rewrite Nat.iter_succ_r.
  - rewrite !IH, Pos2Nat.inj_xO.
    replace (2 * Pos.to_nat p)%nat with (Pos.to_nat p + Pos.to_nat p)%nat by lia.
    now rewrite Nat.iter_add.
  - reflexivity.
Qed.

Lemma shr_1_step mrs :
  0 <= shr_m mrs ->
  shr_m (shr_1 mrs) = Z.div2 (shr_m mrs) /\
  shr_r (shr_1 mrs) = Z.odd (shr_m mrs).
Proof.
  destruct mrs as [m r s]; simpl. intros H.
  destruct m as [|p|p]; [now split| |lia].
  destruct p; now split.
Qed.

Lemma shr_iter_m mrs k :
  0 <= shr_m mrs ->
  shr_m (Nat.iter k shr_1 mrs) = Z.shiftr (shr_m mrs) (Z.of_nat k).
Proof.
  intros H; induction k as [|k IH].
  - simpl. now rewrite Z.shiftr_0_r.
  - rewrite Nat.iter_succ.
    destruct (shr_1_step (Nat.iter k shr_1 mrs)) as [E _].
    { rewrite IH. now apply Z.shiftr_nonneg. }
    rewrite E, IH, Z.div2_spec, Z.shiftr_shiftr by lia.
    f_equal; lia.
Qed.

Lemma shr_iter_r mrs k :
  0 <= shr_m mrs ->
  shr_r (Nat.iter (S k) shr_1 mrs) = Z.testbit (shr_m mrs) (Z.of_nat k).
Proof.
  intros H. rewrite Nat.iter_succ.
  destruct (shr_1_step (Nat.iter k shr_1 mrs)) as [_ E].
  { rewrite shr_iter_m by assumption. now apply Z.shiftr_nonneg. }
  rewrite E, shr_iter_m by assumption.
  rewrite Z.testbit_odd. reflexivity.
Qed.

Lemma digits2_size p : digits2_pos p = Pos.size p.
Proof. induction p; simpl; congruence. Qed.

Lemma digits2_bounds p :
  2 ^ (Z.pos (digits2_pos p) - 1) <= Z.pos p < 2 ^ Z.pos (digits2_pos p).
Proof.
  rewrite digits2_size. split.
  - pose proof (Pos.size_le p) as H.
    assert (H' : 2 ^ Z.pos (Pos.size p) <= 2 * Z.pos p).
    { change 2 with (Z.pos 2) at 1. rewrite <- Pos2Z.inj_pow.
      change (2 * Z.pos p) with (Z.pos p~0). now apply Pos2Z.pos_le_pos. }
    replace (Z.pos (Pos.size p)) with (Z.succ (Z.pos (Pos.size p) - 1)) in H' by lia.
    rewrite Z.pow_succ_r in H' by lia. lia.
  - pose proof (Pos.size_gt p) as H.
    change 2 with (Z.pos 2). rewrite <- Pos2Z.inj_pow. now apply Pos2Z.pos_lt_pos.
Qed.

Lemma digits2_unique p k :
  2 ^ (k - 1) <= Z.pos p < 2 ^ k -> Z.pos (digits2_pos p) = k.
Proof.
  intros [Hlo Hhi]. pose proof (digits2_bounds p) as [Dlo Dhi].
  set (d := Z.pos (digits2_pos p)) in *.
  assert (0 < d) by (subst d; lia).
  assert (0 < k).
  { destruct (Z.le_gt_cases k 0) as [Hk|Hk]; [|exact Hk].
    assert (2 ^ k <= 1). { destruct (Z.eq_dec k 0) as [->|]; [simpl; lia|].
      rewrite Z.pow_neg_r by lia. lia. } lia. }
  destruct (Z.lt_trichotomy d k) as [L|[E|L]]; [|exact E|].
  - assert (2 ^ d <= 2 ^ (k - 1)) by (apply Z.pow_le_mono_r; lia). lia.
  - assert (2 ^ k <= 2 ^ (d - 1)) by (apply Z.pow_le_mono_r; lia). lia.
Qed.

Lemma iter_xO m d : Z.pos (Pos.iter xO m d) = Z.pos m * 2 ^ Z.pos d.
Proof.
  induction d as [|d IH] using Pos.peano_ind.
  - simpl. lia.
  - rewrite Pos.iter_succ, Pos2Z.inj_succ, Z.pow_succ_r by lia.
    rewrite Pos2Z.inj_xO, IH. ring.
Qed.

Lemma fexp_normal x : -1074 <= x - 53 -> fexp prec emax x = x - 53.
Proof.
  intros H. unfold fexp, emin, prec, emax. lia.
Qed.

Lemma shr_fexp_exact (q : positive) e :
  Z.pos (digits2_pos q) = 53 -> -1074 <= e ->
  shr_fexp prec emax (Z.pos q) e loc_Exact
  = ({| shr_m := Z.pos q; shr_r := false; shr_s := false |}, e).
Proof.
  intros Hd He. unfold shr_fexp. cbn [Zdigits2 shr_record_of_loc].
  rewrite Hd, fexp_normal by lia.
  replace (53 + e - 53 - e) with 0 by lia. reflexivity.
Qed.

Lemma round_nearest_even_bounds q l :
  q <= round_nearest_even q l <= q + 1.
Proof.
  unfold round_nearest_even. destruct l as [|[| |]]; try lia.
  destruct (Z.even q); lia.
Qed.

Lemma round_nearest_even_down mrs :
  shr_r mrs = false ->
  round_nearest_even (shr_m mrs) (loc_of_shr_record mrs) = shr_m mrs.
Proof.
  destruct mrs as [m r s]; simpl. intros ->. now destruct s.
Qed.

Lemma binary_round_aux_normal sx (M : positive) e :
  let n := Z.pos (digits2_pos M) - 53 in
  0 <= n -> -1074 <= e + n -> e + n < 971 ->
  exists q',
    Z.pos M / 2 ^ n <= q' <= Z.pos M / 2 ^ n + 1 /\
    (n = 0 \/ Z.testbit (Z.pos M) (n - 1) = false -> q' = Z.pos M / 2 ^ n) /\
    2 ^ 52 <= q' <= 2 ^ 53 /\
    binary_round_aux prec emax sx (Z.pos M) e loc_Exact
    = if q' <? 2 ^ 53 then S754_finite sx (Z.to_pos q') (e + n)
      else S754_finite sx (Z.to_pos (2 ^ 52)) (e + n + 1).
Proof.
  intros n Hn Hlo Hhi.
  pose proof (digits2_bounds M) as [Dlo Dhi].
  set (d := Z.pos (digits2_pos M)) in *.
  assert (Hq : 2 ^ 52 <= Z.pos M / 2 ^ n < 2 ^ 53).
  { replace (d - 1) with (52 + n) in Dlo by (subst n; lia).
    replace d with (53 + n) in Dhi by (subst n; lia).
    rewrite Z.pow_add_r in Dlo, Dhi by lia.
    assert (0 < 2 ^ n) by (apply Z.pow_pos_nonneg; lia).
    split.
    - apply Z.div_le_lower_bound; lia.
    - apply Z.div_lt_upper_bound; lia. }
  (* the first shift *)
  assert (S1 : exists mrs,
             shr_fexp prec emax (Z.pos M) e loc_Exact = (mrs, e + n) /\
             shr_m mrs = Z.pos M / 2 ^ n /\
             (n = 0 \/ Z.testbit (Z.pos M) (n - 1) = false ->
              shr_r mrs = false)).
  { unfold shr_fexp. cbn [Zdigits2 shr_record_of_loc]. fold d.
    rewrite fexp_normal by (subst n; lia).
    replace (d + e - 53 - e) with n by (subst n; lia).
    destruct n as [|p|p] eqn:En; [| |lia].
    - eexists. split; [cbn [shr]; f_equal; lia|].
      cbn [shr_m shr_r]. rewrite Z.pow_0_r, Z.div_1_r. now split.
    - eexists. split; [reflexivity|]. rewrite iter_pos_nat.
      split.
      + rewrite shr_iter_m by (simpl; lia). cbn [shr_m].
        rewrite positive_nat_Z. apply Z.shiftr_div_pow2. lia.
      + intros [H|H]; [discriminate|].
        destruct (Pos.to_nat p) as [|k] eqn:Ek; [lia|].
        rewrite shr_iter_r by (simpl; lia). cbn [shr_m].
        rewrite <- H. f_equal. lia. }
  destruct S1 as (mrs & E1 & Em & Er).
  set (q' := round_nearest_even (shr_m mrs) (loc_of_shr_record mrs)).
  pose proof (round_nearest_even_bounds (shr_m mrs) (loc_of_shr_record mrs))
    as Hb. fold q' in Hb. rewrite Em in Hb.
  exists q'. split; [exact Hb|]. split.
  { intros H. unfold q'. rewrite round_nearest_even_down by auto. exact Em. }
  split; [lia|].
  unfold binary_round_aux. rewrite E1. fold q'.
  destruct (q' <? 2 ^ 53) eqn:Eq.
  - apply Z.ltb_lt in Eq.
    assert (Hpos : q' = Z.pos (Z.to_pos q')) by (rewrite Z2Pos.id; lia).
    rewrite Hpos at 1.
    rewrite shr_fexp_exact; [| apply digits2_unique; rewrite <- Hpos; simpl; lia | lia].
    cbn [shr_m].
    replace (e + n <=? emax - prec) with true; [reflexivity|].
    symmetry; apply Z.leb_le. unfold emax, prec. lia.
  - apply Z.ltb_ge in Eq. assert (q' = 2 ^ 53) as -> by lia.
    unfold shr_fexp. cbn [Zdigits2 shr_record_of_loc].
    change (Z.pos (digits2_pos (Z.to_pos (2 ^ 53)))) with 54.
    change (2 ^ 53) with (Z.pos (Z.to_pos (2 ^ 53))).
    cbn [Zdigits2].
    change (Z.pos (digits2_pos (Z.to_pos (2 ^ 53)))) with 54.
    rewrite fexp_normal by lia.
    replace (54 + (e + n) - 53 - (e + n)) with 1 by lia.
    cbn [shr iter_pos]. unfold shr_1. cbn [shr_m].
    replace (e + n + 1 <=? emax - prec) with true; [reflexivity|].
    symmetry; apply Z.leb_le. unfold emax, prec. lia.
Qed.

Lemma binary_round_normal sx (M : positive) e :
  0 <= Z.pos (digits2_pos M) - 53 ->
  -1074 <= e + (Z.pos (digits2_pos M) - 53) ->
  binary_round prec emax sx M e
  = binary_round_aux prec emax sx (Z.pos M) e loc_Exact.
Proof.
  intros Hn Hlo. unfold binary_round, shl_align.
  rewrite fexp_normal by lia.
  destruct (Z.pos (digits2_pos M) + e - 53 - e) eqn:E; try reflexivity; lia.
Qed.

Lemma shl_align_le mx ex ex' :
  ex' <= ex -> Z.pos (fst (shl_align mx ex ex')) = Z.pos mx * 2 ^ (ex - ex').
Proof.
  intros H. unfold shl_align.
  destruct (ex' - ex) as [|p|p] eqn:E; try lia.
  - replace (ex - ex') with 0 by lia. simpl. lia.
  - cbn [fst]. rewrite iter_xO. f_equal. f_equal. lia.
Qed.

Lemma SFleb_pos a1 e1 m2 e2 :
  SFleb (S754_finite false a1 e1) (S754_finite false m2 e2) = true <->
  e1 < e2 \/ (e1 = e2 /\ Z.pos a1 <= Z.pos m2).
Proof.
  unfold SFleb, SFcompare.
  destruct (e1 ?= e2) eqn:E.
  - apply Z.compare_eq in E. subst e2.
    change (Pos.compare_cont Eq a1 m2) with (Pos.compare a1 m2).
    destruct (Pos.compare_spec a1 m2) as [C|C|C].
    + subst. split; [right; split; lia|reflexivity].
    + split; [right; split; lia|reflexivity].
    + split; [discriminate|]. intros [H|[_ H]]; lia.
  - rewrite Z.compare_lt_iff in E. split; [now left|reflexivity].
  - rewrite Z.compare_gt_iff in E. split; [discriminate|].
    intros [H|[H _]]; lia.
Qed.

Lemma SFadd_milli_range m e :
  Z.pos m < 2 ^ 53 -> -1074 <= e <= -53 ->
  let r := SFadd prec emax (S754_finite false m e) (S754_finite false milli_mant (-62)) in
  SFleb (S754_finite false milli_mant (-62)) r = true /\
  SFleb r (S754_finite false one_milli_mant (-52)) = true.
Proof.
  intros Hm He. cbv zeta. unfold SFadd. cbn [cond_Zopp].
  set (ez := Z.min e (-62)).
  assert (Hez : ez <= e /\ ez <= -62) by (subst ez; lia).
  set (a := fst (shl_align m e ez)). set (b := fst (shl_align milli_mant (-62) ez)).
  pose proof (shl_align_le m e ez ltac:(lia)) as Ha. fold a in Ha.
  pose proof (shl_align_le milli_mant (-62) ez ltac:(lia)) as Hb. fold b in Hb.
  change (Z.pos a + Z.pos b) with (Z.pos (a + b)).
  cbn [binary_normalize].
  set (j := -62 - ez) in *.
  assert (Hj : 0 <= j) by (subst j; lia).
  set (M := (a + b)%positive).
  assert (HM : Z.pos M = Z.pos m * 2 ^ (e - ez) + Z.pos milli_mant * 2 ^ j).
  { subst M. rewrite Pos2Z.inj_add, Ha, Hb. reflexivity. }
  assert (P2j : 0 < 2 ^ j) by (apply Z.pow_pos_nonneg; lia).
  assert (Hlow : Z.pos milli_mant * 2 ^ j <= Z.pos M).
  { rewrite HM. assert (0 <= Z.pos m * 2 ^ (e - ez)); [|lia].
    apply Z.mul_nonneg_nonneg; [lia|]. apply Z.pow_nonneg; lia. }
  assert (Hup : Z.pos M < (2 ^ 62 + Z.pos milli_mant) * 2 ^ j).
  { rewrite HM. assert (Z.pos m * 2 ^ (e - ez) < 2 ^ 62 * 2 ^ j); [|lia].
    rewrite <- Z.pow_add_r by lia.
    apply Z.lt_le_trans with (2 ^ 53 * 2 ^ (e - ez)).
    - apply Z.mul_lt_mono_pos_r; [apply Z.pow_pos_nonneg; lia|exact Hm].
    - rewrite <- Z.pow_add_r by lia. apply Z.pow_le_mono_r; lia. }
  set (d := Z.pos (digits2_pos M)).
  assert (Hd : 53 + j <= d <= 63 + j).
  { pose proof (digits2_bounds M) as [Dlo Dhi]. fold d in Dlo, Dhi.
    assert (0 < d) by (subst d; lia).
    split.
    - destruct (Z.le_gt_cases (53 + j) d) as [L|L]; [exact L|].
      assert (2 ^ d <= 2 ^ (52 + j)) by (apply Z.pow_le_mono_r; lia).
      rewrite Z.pow_add_r in H0 by lia.
      assert (2 ^ 52 <= Z.pos milli_mant) by (unfold milli_mant; lia). nia.
    - destruct (Z.le_gt_cases d (63 + j)) as [L|L]; [exact L|].
      assert (2 ^ (63 + j) <= 2 ^ (d - 1)) by (apply Z.pow_le_mono_r; lia).
      rewrite Z.pow_add_r in H0 by lia.
      assert (2 ^ 62 + Z.pos milli_mant < 2 ^ 63) by (unfold milli_mant; lia). nia. }
  rewrite binary_round_normal by (fold d; lia).
  pose proof (binary_round_aux_normal false M ez) as L. cbv zeta in L.
  fold d in L. set (n := d - 53) in *.
  assert (Hn : j <= n <= j + 10) by (subst n; lia).
  assert (Et : ez = -62 - j) by (subst j; lia).
  clearbody n j M d. clear Ha Hb a b.
  destruct L as (q' & Hq & Hdown & Hr & E); try lia.
  rewrite E. clear E.
  (* the quotient when the result has the exponent of the bounds *)
  assert (Hmin : n = j -> Z.pos milli_mant <= q').
  { intros En. rewrite En in Hq. assert (Z.pos milli_mant <= Z.pos M / 2 ^ j); [|lia].
    apply Z.div_le_lower_bound; lia. }
  assert (Hmax : n = j + 10 -> q' <= Z.pos one_milli_mant).
  { intros En. rewrite En in Hq, Hdown.
    assert (P : 2 ^ (j + 10) = 1024 * 2 ^ j)
      by (rewrite Z.pow_add_r by lia; lia).
    assert (Q : Z.pos M / 2 ^ (j + 10) <= Z.pos one_milli_mant).
    { assert (Z.pos M / 2 ^ (j + 10) < Z.pos one_milli_mant + 1); [|lia].
      apply Z.div_lt_upper_bound; [lia|]. rewrite P. unfold milli_mant, one_milli_mant in *. lia. }
    destruct (Z.eq_dec (Z.pos M / 2 ^ (j + 10)) (Z.pos one_milli_mant)) as [Eq|Ne]; [|lia].
    rewrite Hdown; [lia|]. right.
    apply Z.testbit_false; [lia|].
    replace (j + 10 - 1) with (j + 9) by lia.
    assert (P9 : 2 ^ (j + 9) = 512 * 2 ^ j)
      by (rewrite Z.pow_add_r by lia; lia).
    assert (Z.pos M / 2 ^ (j + 9) = 2 * Z.pos one_milli_mant) as ->.
    { symmetry. apply Z.div_unique with (Z.pos M - 2 * Z.pos one_milli_mant * 2 ^ (j + 9)).
      - left. split.
        + assert (Z.pos one_milli_mant * 2 ^ (j + 10) <= Z.pos M).
          { rewrite <- Eq. rewrite Z.mul_comm.
            apply Z.mul_div_le. lia. }
          rewrite P in H. rewrite P9. lia.
        + rewrite P9. unfold milli_mant, one_milli_mant in *. lia.
      - ring. }
    rewrite Z.mul_comm. apply Z.mod_mul. lia. }
  destruct (q' <? 2 ^ 53) eqn:Eq.
  - apply Z.ltb_lt in Eq. rewrite !SFleb_pos, Z2Pos.id by lia.
    split.
    + destruct (Z.eq_dec n j) as [En|En]; [right|left]; [|lia].
      split; [lia|]. now apply Hmin.
    + destruct (Z.eq_dec n (j + 10)) as [En|En]; [right|left]; [|lia].
      split; [lia|]. now apply Hmax.
  - apply Z.ltb_ge in Eq. rewrite !SFleb_pos.
    assert (n <> j + 10).
    { intros En. specialize (Hmax En). unfold one_milli_mant in Hmax. lia. }
    split; [left; lia|].
    destruct (Z.eq_dec n (j + 9)) as [En|En]; [right|left]; [|lia].
    split; [lia|]. unfold one_milli_mant. simpl. lia.
Qed.


Lemma Prim2SF_milli : Prim2SF Float64.milli = S754_finite false milli_mant (-62).
Proof. vm_compute. reflexivity. Qed.
Lemma Prim2SF_one_milli : Prim2SF Float64.one_milli = S754_finite false one_milli_mant (-52).
Proof. vm_compute. reflexivity. Qed.
Lemma Prim2SF_zero : Prim2SF 0 = S754_zero false.
Proof. vm_compute. reflexivity. Qed.
Lemma Prim2SF_one : Prim2SF 1 = S754_finite false 4503599627370496 (-52).
Proof. vm_compute. reflexivity. Qed.
Lemma SFltb_pos a1 e1 m2 e2 :
  SFltb (S754_finite false a1 e1) (S754_finite false m2 e2) = true <->
  e1 < e2 \/ (e1 = e2 /\ Z.pos a1 < Z.pos m2).
Proof.
  unfold SFltb, SFcompare.
  destruct (e1 ?= e2) eqn:E.
  - apply Z.compare_eq in E. subst e2.
    change (Pos.compare_cont Eq a1 m2) with (Pos.compare a1 m2).
    destruct (Pos.compare_spec a1 m2) as [C|C|C].
    + subst. split; [discriminate|]. intros [H|[_ H]]; lia.
    + split; [right; split; lia|reflexivity].
    + split; [discriminate|]. intros [H|[_ H]]; lia.
  - rewrite Z.compare_lt_iff in E. split; [now left|reflexivity].
  - rewrite Z.compare_gt_iff in E. split; [discriminate|].
    intros [H|[H _]]; lia.
Qed.

Lemma unit_interval_SF u :
  (0 <=? u)%float = true -> (u <? 1)%float = true ->
  (exists s, Prim2SF u = S754_zero s) \/
  (exists m e, Prim2SF u = S754_finite false m e /\
               Z.pos m < 2 ^ 53 /\ -1074 <= e <= -53).
Proof.
  rewrite leb_spec, ltb_spec, Prim2SF_zero, Prim2SF_one.
  pose proof (Prim2SF_valid u) as V.
  destruct (Prim2SF u) as [s|s| |s m e].
  - intros _ _. left. now exists s.
  - destruct s; discriminate.
  - discriminate.
  - intros H0 H1. right. destruct s; [discriminate|]. exists m, e.
    split; [reflexivity|].
    apply SFltb_pos in H1.
    unfold valid_binary, bounded, canonical_mantissa in V.
    apply andb_true_iff in V. destruct V as [V _]. apply Z.eqb_eq in V.
    unfold fexp, emin, prec, emax in V.
    pose proof (digits2_bounds m) as [Dlo Dhi].
    set (d := Z.pos (digits2_pos m)) in *.
    assert (Hd : d <= 53) by lia.
    assert (Hm : Z.pos m < 2 ^ 53).
    { apply Z.lt_le_trans with (2 ^ d); [exact Dhi|].
      apply Z.pow_le_mono_r; lia. }
    split; [exact Hm|]. split; [lia|].
    destruct H1 as [H1|[H1 H2]]; [lia|]. subst e.
    assert (Ed : d - 1 = 52) by lia. rewrite Ed in Dlo. lia.
Qed.

Lemma add_milli_range u :
  (0 <=? u)%float = true -> (u <? 1)%float = true ->
  (Float64.milli <=? u + Float64.milli)%float = true /\
  (u + Float64.milli <=? Float64.one_milli)%float = true.
Proof.
  intros H0 H1. rewrite !leb_spec, add_spec, Prim2SF_milli, Prim2SF_one_milli.
  destruct (unit_interval_SF u H0 H1) as [[s E]|(m & e & E & Hm & He)];
    rewrite E.
  - split; reflexivity.
  - apply SFadd_milli_range; assumption.
Qed.

(** ** Integers cast to binary64 *)

(** A mantissa of 53 bits at an exponent of the normal range is valid. *)
Lemma valid_normal s (m : positive) e :
  2 ^ 52 <= Z.pos m < 2 ^ 53 -> -1074 <= e <= 971 ->
  valid_binary (S754_finite s m e) = true.
Proof.
  intros Hm He. unfold valid_binary, SpecFloat.valid_binary, bounded, canonical_mantissa.
  rewrite (digits2_unique m 53) by (simpl; lia).
  rewrite fexp_normal by lia.
  apply andb_true_iff. split; [apply Z.eqb_eq; lia|].
  apply Z.leb_le. unfold emax, prec. lia.
Qed.

(** [binary_round] in the normal range gives a normal number, at the
    exponent of the mantissa's top bit or the next one. *)
Lemma binary_round_finite sx (M : positive) e :
  let t := e + Z.pos (digits2_pos M) - 53 in
  -1074 <= t -> t < 971 ->
  exists m e',
    binary_round prec emax sx M e = S754_finite sx m e' /\
    2 ^ 52 <= Z.pos m < 2 ^ 53 /\ t <= e' <= t + 1.
Proof.
  intros t Hlo Hhi. pose proof (digits2_bounds M) as [Dlo Dhi].
  set (d := Z.pos (digits2_pos M)) in *.
  destruct (Z_le_gt_dec 53 d) as [Hd|Hd].
  - rewrite binary_round_normal by (fold d; lia).
    pose proof (binary_round_aux_normal sx M e) as L. cbv zeta in L.
    fold d in L. destruct L as (q' & Hq & _ & Hr & E); try (subst t; lia).
    rewrite E. destruct (q' <? 2 ^ 53) eqn:Eq.
    + apply Z.ltb_lt in Eq. do 2 eexists. split; [reflexivity|].
      rewrite Z2Pos.id by lia. subst t. lia.
    + do 2 eexists. split; [reflexivity|]. rewrite Z2Pos.id by lia.
      subst t. lia.
  - unfold binary_round, shl_align. fold d.
    rewrite fexp_normal by (subst t; lia).
    destruct (d + e - 53 - e) as [|p|p] eqn:Ek; try lia.
    assert (Hp : Z.pos p = 53 - d) by lia.
    set (M' := Pos.iter xO M p).
    assert (HM' : Z.pos M' = Z.pos M * 2 ^ (53 - d))
      by (subst M'; rewrite iter_xO, Hp; reflexivity).
    assert (Hb : 2 ^ 52 <= Z.pos M' < 2 ^ 53).
    { assert (0 < d) by (subst d; lia).
      assert (E52 : 2 ^ 52 = 2 ^ (d - 1) * 2 ^ (53 - d))
        by (rewrite <- Z.pow_add_r by lia; f_equal; lia).
      assert (E53 : 2 ^ 53 = 2 ^ d * 2 ^ (53 - d))
        by (rewrite <- Z.pow_add_r by lia; f_equal; lia).
      assert (0 < 2 ^ (53 - d)) by (apply Z.pow_pos_nonneg; lia).
      rewrite HM', E52, E53.
      split; [apply Z.mul_le_mono_nonneg_r; lia|].
      apply Z.mul_lt_mono_pos_r; lia. }
    pose proof (binary_round_aux_normal sx M' (d + e - 53)) as L.
    cbv zeta in L. rewrite (digits2_unique M' 53) in L by (simpl; lia).
    destruct L as (q' & _ & Hdown & _ & E); try (subst t; lia).
    rewrite E. rewrite Hdown by (left; lia).
    rewrite Z.pow_0_r, Z.div_1_r.
    replace (Z.pos M' <? 2 ^ 53) with true by (symmetry; apply Z.ltb_lt; lia).
    do 2 eexists. split; [reflexivity|]. rewrite Pos2Z.id. subst t. lia.
Qed.

(** A non-zero integer below [2^1000] in magnitude casts to a normal
    number of its sign. *)
Lemma of_Z_SF z :
  z <> 0 -> Z.abs z < 2 ^ 1000 ->
  exists m e,
    Prim2SF (Float64.of_Z z) = S754_finite (z <? 0) m e /\
    2 ^ 52 <= Z.pos m < 2 ^ 53 /\ -52 <= e <= 948.
Proof.
  intros Hz Hb. unfold Float64.of_Z.
  assert (P : forall sx (p : positive), Z.pos p < 2 ^ 1000 ->
            exists m e,
              Prim2SF (SF2Prim (binary_round prec emax sx p 0))
              = S754_finite sx m e /\
              2 ^ 52 <= Z.pos m < 2 ^ 53 /\ -52 <= e <= 948).
  { intros sx p Hp. pose proof (digits2_bounds p) as [Dlo Dhi].
    set (d := Z.pos (digits2_pos p)) in *.
    assert (0 < d) by (subst d; lia).
    assert (d <= 1000).
    { destruct (Z_le_gt_dec d 1000) as [L|L]; [exact L|].
      assert (2 ^ 1000 <= 2 ^ (d - 1)) by (apply Z.pow_le_mono_r; lia).
      lia. }
    destruct (binary_round_finite sx p 0) as (m & e & E & Hm & He);
      fold d; try lia.
    fold d in He. exists m, e. rewrite E.
    rewrite Prim2SF_SF2Prim by (apply valid_normal; lia).
    split; [reflexivity|]. split; lia. }
  destruct z as [|p|p]; [congruence| |]; cbn [binary_normalize].
  - apply P. simpl in Hb. exact Hb.
  - apply P. simpl in Hb. exact Hb.
Qed.

(** The difference of two normal numbers of opposite signs and moderate
    exponents is a finite number. *)
Lemma SFsub_opposite s m e m' e' :
  2 ^ 52 <= Z.pos m < 2 ^ 53 -> 2 ^ 52 <= Z.pos m' < 2 ^ 53 ->
  -52 <= e <= 948 -> -52 <= e' <= 948 ->
  exists m'' e'',
    SFsub prec emax (S754_finite s m e) (S754_finite (negb s) m' e')
    = S754_finite s m'' e''.
Proof.
  intros Hm Hm' He He'. unfold SFsub.
  set (ez := Z.min e e').
  assert (Hez : ez <= e /\ ez <= e' /\ -52 <= ez) by (subst ez; lia).
  set (a := fst (shl_align m e ez)). set (b := fst (shl_align m' e' ez)).
  pose proof (shl_align_le m e ez ltac:(lia)) as Ha. fold a in Ha.
  pose proof (shl_align_le m' e' ez ltac:(lia)) as Hb. fold b in Hb.
  assert (Es : cond_Zopp s (Z.pos a) - cond_Zopp (negb s) (Z.pos b)
               = cond_Zopp s (Z.pos (a + b))).
  { destruct s; simpl; lia. }
  rewrite Es.
  assert (En : binary_normalize prec emax (cond_Zopp s (Z.pos (a + b)))
                 ez false
               = binary_round prec emax s (a + b) ez)
    by (destruct s; reflexivity).
  rewrite En.
  set (M := (a + b)%positive).
  assert (HM : Z.pos M = Z.pos m * 2 ^ (e - ez) + Z.pos m' * 2 ^ (e' - ez))
    by (subst M; rewrite Pos2Z.inj_add, Ha, Hb; reflexivity).
  set (x := Z.max e e').
  assert (P1 : 1 <= 2 ^ (e - ez))
    by (assert (0 < 2 ^ (e - ez)) by (apply Z.pow_pos_nonneg; lia); lia).
  assert (P2 : 1 <= 2 ^ (e' - ez))
    by (assert (0 < 2 ^ (e' - ez)) by (apply Z.pow_pos_nonneg; lia); lia).
  assert (Q1 : 2 ^ (e - ez) <= 2 ^ (x - ez))
    by (apply Z.pow_le_mono_r; subst x; lia).
  assert (Q2 : 2 ^ (e' - ez) <= 2 ^ (x - ez))
    by (apply Z.pow_le_mono_r; subst x; lia).
  assert (Hlow : 2 ^ 53 <= Z.pos M) by (rewrite HM; nia).
  assert (Hup : Z.pos M < 2 ^ (54 + (x - ez))).
  { rewrite Z.pow_add_r by (subst x; lia). rewrite HM. nia. }
  pose proof (digits2_bounds M) as [Dlo Dhi].
  set (d := Z.pos (digits2_pos M)) in *.
  assert (Hd : 54 <= d <= 54 + (x - ez)).
  { assert (0 < d) by (subst d; lia). split.
    - destruct (Z_le_gt_dec 54 d) as [L|L]; [exact L|].
      assert (2 ^ d <= 2 ^ 53) by (apply Z.pow_le_mono_r; lia). lia.
    - destruct (Z_le_gt_dec d (54 + (x - ez))) as [L|L]; [exact L|].
      assert (2 ^ (54 + (x - ez)) <= 2 ^ (d - 1))
        by (apply Z.pow_le_mono_r; subst x; lia).
      lia. }
  destruct (binary_round_finite s M ez) as (m'' & e'' & E & _);
    fold d; try (subst x; lia).
  now exists m'', e''.
Qed.

Lemma Prim2SF_infinity : Prim2SF infinity = S754_infinity false.
Proof. vm_compute. reflexivity. Qed.

(** A float whose image is a finite number is finite. *)
Lemma is_finite_SF f s m e :
  Prim2SF f = S754_finite s m e -> is_finite f = true.
Proof.
  intros E. unfold is_finite, is_nan, is_infinity.
  rewrite !FloatAxioms.eqb_spec, abs_spec, Prim2SF_infinity, E.
  unfold SFeqb, SFcompare, SFabs.
  rewrite Z.compare_refl.
  change (Pos.compare_cont Eq m m) with (Pos.compare m m).
  rewrite Pos.compare_refl. now destruct s.
Qed.

(** The range of [uniform(-offset, offset)] is finite for every offset
    below [2^1000] in magnitude. *)
Lemma finite_range_bound offset :
  Z.abs offset < 2 ^ 1000 -> finite_range offset = true.
Proof.
  intros Hb. unfold finite_range.
  destruct (Z.eq_dec offset 0) as [->|Hz]; [vm_compute; reflexivity|].
  destruct (of_Z_SF offset Hz Hb) as (m & e & E & Hm & He).
  destruct (of_Z_SF (-1 * offset)) as (m' & e' & E' & Hm' & He'); try lia.
  replace (-1 * offset <? 0) with (negb (offset <? 0)) in E'
    by (destruct (Z.ltb_spec offset 0); destruct (Z.ltb_spec (-1 * offset) 0);
        simpl; try reflexivity; lia).
  destruct (SFsub_opposite (offset <? 0) m e m' e' Hm Hm' He He')
    as (m'' & e'' & Es).
  apply (is_finite_SF _ (offset <? 0) m'' e'').
  rewrite sub_spec, E, E'. exact Es.
Qed.

(** ** Draws, one at a time *)

Section DrawFacts.

Context {G : Mtrand}.

Lemma advance_S {A : Type} (f : rk_state -> A * rk_state) k s :
  advance f (S k) s = advance f k (snd (f s)).
Proof. unfold advance. now rewrite Nat.iter_succ_r. Qed.

Lemma advance_add {A : Type} (f : rk_state -> A * rk_state) j k s :
  advance f (j + k) s = advance f k (advance f j s).
Proof.
  revert s; induction j as [|j IH]; intros s; [reflexivity|].
  change (S j + k)%nat with (S (j + k)).
  now rewrite !advance_S, IH.
Qed.

Lemma draw_steps (f : rk_state -> float * rk_state) :
  steps_as (draw f) f.
Proof. intros s. exists (fst (f s)). unfold draw. now destruct (f s). Qed.


Lemma fill_vec_spec {A : Type} d (f : rk_state -> A * rk_state) :
  steps_as d f ->
  forall k s, exists v,
    fill_vec k d s = Ok (v, advance f k s) /\ length v = k.
Proof.
  intros Hd k; induction k as [|k IH]; intros s.
  - exists []. split; reflexivity.
  - destruct (Hd s) as [x Hx]. destruct (IH (snd (f s))) as [v [Hv Hl]].
    exists (x :: v). split; [|simpl; now rewrite Hl].
    rewrite advance_S. cbn [fill_vec]. unfold bind. rewrite Hx, Hv.
    reflexivity.
Qed.

Lemma fill_rows_spec {A : Type} d (f : rk_state -> A * rk_state) :
  steps_as d f ->
  forall n c s, exists M,
    fill_rows n c d s = Ok (M, advance f (n * c) s) /\
    length M = n /\ Forall (fun r => length r = c) M.
Proof.
  intros Hd n c; induction n as [|n IH]; intros s.
  - exists []. repeat split; constructor.
  - destruct (fill_vec_spec d f Hd c s) as [r [Hr Hlr]].
    destruct (IH (advance f c s)) as [M [HM [HlM HF]]].
    exists (r :: M). repeat split.
    + change (S n * c)%nat with (c + n * c)%nat. rewrite advance_add.
      cbn [fill_rows]. unfold bind. rewrite Hr, HM. reflexivity.
    + simpl. now rewrite HlM.
    + now constructor.
Qed.

Lemma bad_shape_false n d : 0 <= n -> 0 <= d -> bad_shape n d = false.
Proof.
  intros Hn Hd. unfold bad_shape.
  apply orb_false_iff; split; apply Z.ltb_ge; assumption.
Qed.

(** [randn] on a shape without negative dimension. *)
Lemma randn_spec n d s :
  0 <= n -> 0 <= d ->
  exists M, randn n d s
            = Ok (M, advance rk_gauss (Z.to_nat n * Z.to_nat d) s) /\
            length M = Z.to_nat n /\
            Forall (fun r => length r = Z.to_nat d) M.
Proof.
  intros Hn Hd. unfold randn. rewrite bad_shape_false by assumption.
  apply fill_rows_spec, draw_steps.
Qed.



(** The rows and labels appended for [n_nan] or [n_inf]: the guard
    [0 < n] and an empty [np.full] agree when [n <= 0]. *)
Lemma append_if_pos {A : Type} (n : Z) (xs : list A) (a : A) :
  (if 0 <? n then r_ xs (repeat a (Z.to_nat n)) else xs)
  = xs ++ repeat a (Z.to_nat n).
Proof.
  destruct (0 <? n) eqn:E; [reflexivity|].
  apply Z.ltb_ge in E.
  replace (Z.to_nat n) with O by lia. simpl. now rewrite app_nil_r.
Qed.


End DrawFacts.

(** ** The sampler *)

Section SamplerFacts.

Context {G : Mtrand}.







End SamplerFacts.









(** ** The generator *)

Section GeneratorFacts.

Context {G : Mtrand}.


Lemma randint_spec offset (s : rk_state) :
  0 < offset <= long_bound ->
  randint offset s = Ok (rk_interval (offset - 1) s) /\
  0 <= fst (rk_interval (offset - 1) s) < offset.
Proof.
  intros [Hlo Hhi]. unfold randint.
  replace (offset <=? 0) with false by (symmetry; apply Z.leb_gt; exact Hlo).
  replace (long_bound <? offset) with false
    by (symmetry; apply Z.ltb_ge; exact Hhi).
  split; [reflexivity|].
  pose proof (rk_interval_range (offset - 1) s ltac:(lia)). lia.
Qed.

(** The [offset_] drawn for an accepted [offset] is below [2^63]: the
    range of the uniform draws is finite. *)
Lemma offset_finite_range offset (s : rk_state) :
  0 < offset <= long_bound ->
  finite_range (fst (rk_interval (offset - 1) s)) = true.
Proof.
  intros H. destruct (randint_spec offset s H) as [_ Ho].
  apply finite_range_bound. unfold long_bound in H.
  assert (2 ^ 63 < 2 ^ 1000) by (apply Z.pow_lt_mono_r; lia). lia.
Qed.

(** [offset_] and [coef_] for an offset [randint] accepts. *)
Lemma derive_params_spec offset (s : rk_state) :
  0 < offset <= long_bound ->
  let s1 := snd (rk_interval (offset - 1) s) in
  derive_params offset s
  = Ok ((fst (rk_interval (offset - 1) s),
         (fst (rk_double s1) + Float64.milli)%float),
        snd (rk_double s1)).
Proof.
  intros H s1. unfold derive_params, bind.
  destruct (randint_spec offset s H) as [E _]. rewrite E.
  subst s1. destruct (rk_interval (offset - 1) s) as [o t]; simpl.
  unfold random_sample, draw, ret. now destruct (rk_double t).
Qed.




Lemma lift_ok {A : Type} (a : A) (s : rk_state) : lift (Ok a) s = Ok (a, s).
Proof. reflexivity. Qed.


(** ** The random state of a call *)

Lemma nth_error_snoc {A : Type} (xs : list A) (a : A) :
  nth_error (xs ++ [a]) (length xs) = Some a.
Proof. rewrite nth_error_app2, Nat.sub_diag by lia. reflexivity. Qed.

(** An integer seed in range starts the call from the seeded state,
    whatever the world. *)
Lemma initial_state_int z (w : world G) :
  initial_state (SeedInt z) w
  = if (0 <=? z) && (z <? seed_bound) then Some (rk_seed z) else None.
Proof.
  unfold initial_state, check_random_state.
  destruct ((0 <=? z) && (z <? seed_bound)); [|reflexivity].
  simpl. apply nth_error_snoc.
Qed.

(** A call returns what its body returns from the initial state, and
    raises when it gets no random state. *)
Lemma generate_data_returned n_train n_test n_features contamination
    train_only offset random_state n_nan n_inf (w : world G) :
  returned (generate_data n_train n_test n_features contamination train_only
                          offset random_state n_nan n_inf w)
  = match initial_state random_state w with
    | Some s => returned (generate_on n_train n_test n_features contamination
                                      train_only offset n_nan n_inf s)
    | None => Raise ValueError
    end.
Proof.
  unfold generate_data, initial_state.
  destruct (check_random_state random_state w) as [[r w']|e] eqn:E.
  - unfold run_on. destruct (load r w') as [s|]; [|reflexivity].
    destruct (generate_on _ _ _ _ _ _ _ _ s) as [[d s']|e]; reflexivity.
  - destruct random_state as [|z| |l]; simpl in E.
    + discriminate.
    + destruct ((0 <=? z) && (z <? seed_bound)); inversion E; reflexivity.
    + discriminate.
    + destruct (nth_error (objects w) l); inversion E; reflexivity.
Qed.

End GeneratorFacts.

(** ** Claims on the generator *)

Section GeneratorClaims.

Context {G : Mtrand}.

(** C3: with an integer seed, what a call of [generate_data] returns (the
    arrays, or the exception) does not depend on the world it is made in:
    two calls with the same seed and the same other arguments return the
    same arrays, cell for cell. *)
Theorem generate_data_deterministic n_train n_test n_features contamination
    train_only offset z n_nan n_inf (w1 w2 : world G) :
  returned (generate_data n_train n_test n_features contamination train_only
                          offset (SeedInt z) n_nan n_inf w1)
  = returned (generate_data n_train n_test n_features contamination train_only
                            offset (SeedInt z) n_nan n_inf w2).
Proof.
  now rewrite !generate_data_returned, !initial_state_int.
Qed.









End GeneratorClaims.

(** ** The scale coefficient *)

Section CoefClaim.

Context {G : Mtrand}.

(** Parameters are derived only for an offset that [randint] accepts. *)
Lemma derive_params_inv offset (s s' : rk_state) offset_ coef_ :
  derive_params offset s = Ok ((offset_, coef_), s') ->
  0 < offset <= long_bound.
Proof.
  unfold derive_params, bind, randint.
  destruct (offset <=? 0) eqn:E0; [discriminate|].
  destruct (long_bound <? offset) eqn:E1; [discriminate|].
  intros _. apply Z.leb_gt in E0. apply Z.ltb_ge in E1. lia.
Qed.

Lemma zero_plus_milli : (0 + Float64.milli)%float = Float64.milli.
Proof. vm_compute. reflexivity. Qed.

(** C7, as the code has it: [coef_] is the binary64 sum of a draw of
    [[0, 1)] and [0.001].  In every invocation that derives its parameters
    it lies in the closed interval [[0.001, 1.001]] (the bounds as
    doubles), and it is [0.001] itself when the draw is exactly 0: the
    interval is not open.  The parameters are derived for every offset
    that [randint] accepts. *)
Theorem coef_closed_range offset (s : rk_state) :
  (forall offset_ coef_ s',
     derive_params offset s = Ok ((offset_, coef_), s') ->
     (Float64.milli <=? coef_)%float = true /\
     (coef_ <=? Float64.one_milli)%float = true /\
     (fst (rk_double (snd (rk_interval (offset - 1) s))) = 0%float ->
      coef_ = Float64.milli)) /\
  (0 < offset <= long_bound -> is_ok (derive_params offset s) = true).
Proof.
  split.
  - intros offset_ coef_ s' E.
    pose proof (derive_params_inv _ _ _ _ _ E) as Hoff.
    pose proof (derive_params_spec offset s Hoff) as Ep. cbv zeta in Ep.
    rewrite Ep in E. inversion E; subst; clear E.
    destruct (rk_double_range (snd (rk_interval (offset - 1) s))) as [H0 H1].
    destruct (add_milli_range _ H0 H1) as [Hlo Hhi].
    split; [exact Hlo|]. split; [exact Hhi|].
    intros ->. apply zero_plus_milli.
  - intros Hoff. now rewrite (derive_params_spec offset s Hoff).
Qed.

End CoefClaim.

(** ** The claims on the small generator *)






(** From state 4 the draw is 0.5. *)
Lemma coef_closed_range_witness :
  @derive_params Toy.gen 10 4 = Ok ((4, (0.5 + Float64.milli)%float), 6) /\
  (Float64.milli <=? 0.5 + Float64.milli)%float = true /\
  (0.5 + Float64.milli <=? Float64.one_milli)%float = true.
Proof.
  assert (E : @derive_params Toy.gen 10 4
              = Ok ((4, (0.5 + Float64.milli)%float), 6))
    by (vm_compute; reflexivity).
  split; [exact E|].
  destruct (proj1 (@coef_closed_range Toy.gen 10 4) _ _ _ E) as (H1 & H2 & _).
  split; [exact H1|exact H2].
Defined.

(** From state 3 the draw is exactly 0: [coef_] is [0.001], which is not
    above [0.001]. *)
Lemma coef_at_lower_bound :
  @derive_params Toy.gen 10 3 = Ok ((3, Float64.milli), 5) /\
  (Float64.milli <? Float64.milli)%float = false.
Proof. split; vm_compute; reflexivity. Qed.

(** * More of the module

    Properties beyond the claims: the range of the derived parameters,
    the shape and the failures of the sampler, what the generator does to
    the random states around it. *)

(** ** The derived parameters *)

Section ParamFacts.

Context {G : Mtrand}.

(** X1: for an [offset] that [randint] accepts, lines 149-150 give an
    [offset_] with [0 <= offset_ < offset] and a [coef_], the binary64 sum
    of a draw of [[0, 1)] and [0.001], with [0.001 <= coef_ <= 1.001]
    (both bounds as doubles, both reached). *)
Theorem derived_params_range offset (s : rk_state) :
  0 < offset <= long_bound ->
  exists offset_ coef_ s',
    derive_params offset s = Ok ((offset_, coef_), s') /\
    0 <= offset_ < offset /\
    (Float64.milli <=? coef_)%float = true /\
    (coef_ <=? Float64.one_milli)%float = true.
Proof.
  intros H. pose proof (derive_params_spec offset s H) as E. cbv zeta in E.
  destruct (randint_spec offset s H) as [_ Ho].
  do 3 eexists. split; [exact E|]. split; [exact Ho|].
  destruct (rk_double_range (snd (rk_interval (offset - 1) s))) as [H0 H1].
  now apply add_milli_range.
Qed.

End ParamFacts.

(** ** Shape and failures of the sampler *)

Section SamplerMore.

Context {G : Mtrand}.



(** A negative [n_inliers] or [n_features]: [randn] refuses the shape. *)
Lemma _generate_data_raises_randn n_inliers n_outliers n_features coef
    offset n_nan n_inf (s : rk_state) :
  n_inliers < 0 \/ n_features < 0 ->
  _generate_data n_inliers n_outliers n_features coef offset n_nan n_inf s
  = Raise ValueError.
Proof.
  intros H. unfold _generate_data, bind, randn.
  replace (bad_shape n_inliers n_features) with true; [reflexivity|].
  symmetry. unfold bad_shape. apply orb_true_iff.
  destruct H as [H|H]; [left|right]; apply Z.ltb_lt; exact H.
Qed.


(** A negative dimension on a finite range makes the sampler raise
    [ValueError]: [randn] refuses the inlier shape, or, that one accepted,
    [uniform] refuses the outlier shape. *)
Lemma _generate_data_raises n_inliers n_outliers n_features coef offset
    n_nan n_inf (s : rk_state) :
  finite_range offset = true ->
  n_inliers < 0 \/ n_outliers < 0 \/ n_features < 0 ->
  _generate_data n_inliers n_outliers n_features coef offset n_nan n_inf s
  = Raise ValueError.
Proof.
  intros Hr H.
  destruct (Z_lt_le_dec n_inliers 0) as [Hi|Hi];
    [apply _generate_data_raises_randn; lia|].
  destruct (Z_lt_le_dec n_features 0) as [Hd|Hd];
    [apply _generate_data_raises_randn; lia|].
  unfold _generate_data, bind.
  destruct (randn_spec n_inliers n_features s Hi Hd) as [M [EM _]].
  rewrite EM. unfold uniform. unfold finite_range in Hr. rewrite Hr.
  replace (bad_shape n_outliers n_features) with true; [reflexivity|].
  symmetry. unfold bad_shape. apply orb_true_iff. left.
  apply Z.ltb_lt. lia.
Qed.



End SamplerMore.

(** ** Failures of the generator *)

Section GeneratorFailures.

Context {G : Mtrand}.

(** X5: when [int(n_train * contamination)] is a count [k] that is negative
    or exceeds [n_train], one of the training counts is negative and the
    call raises [ValueError] (from the array construction), whatever the
    other arguments. *)
Theorem bad_split_raises n_train n_test n_features contamination train_only
    offset random_state n_nan n_inf (w : world G) k :
  0 < offset <= long_bound ->
  initial_state random_state w <> None ->
  int_of_product n_train contamination = Ok k ->
  k < 0 \/ n_train < k ->
  returned (generate_data n_train n_test n_features contamination train_only
                          offset random_state n_nan n_inf w)
  = Raise ValueError.
Proof.
  intros Hoff Hs Ek Hk. rewrite generate_data_returned.
  destruct (initial_state random_state w) as [s|]; [|congruence].
  unfold generate_on, bind.
  pose proof (derive_params_spec offset s Hoff) as Ep. cbv zeta in Ep.
  rewrite Ep, Ek, lift_ok.
  rewrite _generate_data_raises;
    [reflexivity|now apply offset_finite_range|lia].
Qed.

Lemma Prim2SF_nan : Prim2SF nan = S754_nan.
Proof. vm_compute. reflexivity. Qed.

Lemma mul_nan f : Prim2SF (f * nan) = S754_nan.
Proof.
  rewrite mul_spec, Prim2SF_nan. unfold SF64mul, SFmul.
  destruct (Prim2SF f); reflexivity.
Qed.

(** X6: a NaN [contamination] makes the call raise [ValueError], from
    [int] of a NaN product, for every [n_train] that converts to a float. *)
Theorem nan_contamination_raises n_train n_test n_features train_only
    offset random_state n_nan n_inf (w : world G) :
  0 < offset <= long_bound ->
  initial_state random_state w <> None ->
  is_infinity (Float64.of_Z n_train) = false ->
  returned (generate_data n_train n_test n_features nan train_only
                          offset random_state n_nan n_inf w)
  = Raise ValueError.
Proof.
  intros Hoff Hs Hf. rewrite generate_data_returned.
  destruct (initial_state random_state w) as [s|]; [|congruence].
  unfold generate_on, bind.
  pose proof (derive_params_spec offset s Hoff) as Ep. cbv zeta in Ep.
  rewrite Ep.
  assert (E : int_of_product n_train nan = Raise ValueError).
  { unfold int_of_product, Float64.of_int. rewrite Hf.
    unfold Float64.to_int. now rewrite mul_nan. }
  rewrite E. reflexivity.
Qed.

End GeneratorFailures.

(** ** The random states around a call *)

Section WorldFacts.

Context {G : Mtrand}.

Lemma set_nth_snoc {A : Type} (xs : list A) (a b : A) :
  set_nth (length xs) b (xs ++ [a]) = xs ++ [b].
Proof. induction xs as [|x xs IH]; simpl; [reflexivity|now rewrite IH]. Qed.




(** X7: a call with an integer seed leaves the global random state and
    every [RandomState] object that exists as they are: it works on an
    object of its own. *)
Theorem int_seed_leaves_states n_train n_test n_features contamination
    train_only offset z n_nan n_inf (w w' : world G) d :
  generate_data n_train n_test n_features contamination train_only offset
                (SeedInt z) n_nan n_inf w = Ok (d, w') ->
  np_random w' = np_random w /\
  firstn (length (objects w)) (objects w') = objects w.
Proof.
  unfold generate_data, check_random_state.
  destruct ((0 <=? z) && (z <? seed_bound)); [|discriminate].
  unfold run_on, load. cbn [objects np_random]. rewrite nth_error_snoc.
  destruct (generate_on _ _ _ _ _ _ _ _ (rk_seed z)) as [[d' s']|e];
    [|discriminate].
  intros H; inversion H; subst; clear H.
  unfold store. cbn [objects np_random]. split; [reflexivity|].
  rewrite set_nth_snoc, firstn_app, firstn_all, Nat.sub_diag. simpl.
  apply app_nil_r.
Qed.



End WorldFacts.

(** ** How the two sampler calls compose *)

Section Composition.

Context {G : Mtrand}.

(** X9: the test partition of a full call is what the sampler returns, with
    the [offset_] and [coef_] of the training partition, from the random
    state the [train_only] call leaves; the training arrays are those of
    the [train_only] call, and a failure of the second sampler call is the
    failure of the full call. *)
Theorem test_partition_continues n_train n_test n_features contamination
    offset n_nan n_inf (s s1 s2 : rk_state) offset_ coef_ X_train y_train k' :
  derive_params offset s = Ok ((offset_, coef_), s1) ->
  generate_on n_train n_test n_features contamination true offset
              n_nan n_inf s = Ok (Train X_train y_train, s2) ->
  int_of_product n_test contamination = Ok k' ->
  generate_on n_train n_test n_features contamination false offset
              n_nan n_inf s
  = match _generate_data (n_test - k') k' n_features coef_ offset_
                         n_nan n_inf s2 with
    | Ok ((X_test, y_test), s3) =>
        Ok (TrainTest X_train X_test y_train y_test, s3)
    | Raise e => Raise e
    end.
Proof.
  intros Ep Et Ek'. revert Et. unfold generate_on, bind. rewrite Ep.
  destruct (lift (int_of_product n_train contamination) s1) as [[k t]|e];
    [|discriminate].
  destruct (_generate_data (n_train - k) k n_features coef_ offset_
              n_nan n_inf t) as [[[X y] t']|e]; [|discriminate].
  unfold ret. intros H; inversion H; subst; clear H.
  rewrite Ek', lift_ok.
  destruct (_generate_data (n_test - k') k' n_features coef_ offset_
              n_nan n_inf s2) as [[[X' y'] t'']|e]; reflexivity.
Qed.

Lemma generate_on_ignores_n_test n_train n_test n_test' n_features
    contamination offset n_nan n_inf (s : rk_state) :
  generate_on n_train n_test n_features contamination true offset
              n_nan n_inf s
  = generate_on n_train n_test' n_features contamination true offset
                n_nan n_inf s.
Proof.
  unfold generate_on, bind.
  destruct (derive_params offset s) as [[[o c] s1]|e]; [|reflexivity].
  destruct (lift (int_of_product n_train contamination) s1) as [[k t]|e];
    [|reflexivity].
  destruct (_generate_data (n_train - k) k n_features c o n_nan n_inf t)
    as [[[X y] t']|e]; reflexivity.
Qed.

(** X10: a [train_only] call does not look at [n_test]: for every
    [n_test], also one that a full call would refuse, it returns the same
    arrays (or raises the same exception) and leaves the same random
    states. *)
Theorem train_only_ignores_n_test n_train n_test n_test' n_features
    contamination offset random_state n_nan n_inf (w : world G) :
  generate_data n_train n_test n_features contamination true offset
                random_state n_nan n_inf w
  = generate_data n_train n_test' n_features contamination true offset
                  random_state n_nan n_inf w.
Proof.
  unfold generate_data.
  destruct (check_random_state random_state w) as [[r w']|e]; [|reflexivity].
  unfold run_on. destruct (load r w') as [s|]; [|reflexivity].
  now rewrite (generate_on_ignores_n_test n_train n_test n_test').
Qed.

End Composition.

(** ** The least offset *)

Section LeastOffset.

Context {G : Mtrand}.








End LeastOffset.

(** ** These properties on the small generator *)

Lemma derived_params_range_witness :
  exists offset_ coef_ s',
    @derive_params Toy.gen 10 3 = Ok ((offset_, coef_), s') /\
    0 <= offset_ < 10 /\
    (Float64.milli <=? coef_)%float = true /\
    (coef_ <=? Float64.one_milli)%float = true.
Proof.
  apply (@derived_params_range Toy.gen 10 3). unfold long_bound. lia.
Defined.



(** 4 training points at [contamination = 1.5]: 6 outliers, -2 inliers. *)
Lemma bad_split_raises_witness :
  returned (@generate_data Toy.gen 4 3 2 1.5%float true 10 (SeedInt 3) 0 0
                           Toy.w0)
  = Raise ValueError.
Proof.
  apply (@bad_split_raises Toy.gen 4 3 2 1.5%float true 10 (SeedInt 3) 0 0
           Toy.w0 6);
    try (unfold long_bound; lia); try reflexivity.
  vm_compute. discriminate.
Defined.

Lemma nan_contamination_raises_witness :
  returned (@generate_data Toy.gen 4 3 2 nan true 10 (SeedInt 3) 0 0 Toy.w0)
  = Raise ValueError.
Proof.
  apply (@nan_contamination_raises Toy.gen 4 3 2 true 10 (SeedInt 3) 0 0
           Toy.w0);
    try (unfold long_bound; lia); try reflexivity.
  vm_compute. discriminate.
Defined.

(** A world with the global state at 7 and two objects, at 11 and 12. *)
Lemma int_seed_leaves_states_witness :
  exists d w',
    @generate_data Toy.gen 4 3 2 0.5%float false 10 (SeedInt 3) 1 0
                   (@Build_world Toy.gen 7 [11; 12]) = Ok (d, w') /\
    np_random w' = 7 /\
    firstn 2 (objects w') = [11; 12].
Proof.
  destruct (@generate_data Toy.gen 4 3 2 0.5%float false 10 (SeedInt 3) 1 0
              (@Build_world Toy.gen 7 [11; 12])) as [[d w']|e] eqn:E.
  - exists d, w'. split; [reflexivity|].
    exact (@int_seed_leaves_states Toy.gen 4 3 2 0.5%float false 10 3 1 0
             (@Build_world Toy.gen 7 [11; 12]) w' d E).
  - vm_compute in E. discriminate E.
Defined.


Lemma test_partition_continues_witness :
  exists offset_ coef_ s1 X_train y_train s2 k',
    @derive_params Toy.gen 10 3 = Ok ((offset_, coef_), s1) /\
    @generate_on Toy.gen 4 3 2 0.5%float true 10 1 0 3
    = Ok (Train X_train y_train, s2) /\
    int_of_product 3 0.5%float = Ok k' /\
    @generate_on Toy.gen 4 3 2 0.5%float false 10 1 0 3
    = match @_generate_data Toy.gen (3 - k') k' 2 coef_ offset_ 1 0 s2 with
      | Ok ((X_test, y_test), s3) =>
          Ok (TrainTest X_train X_test y_train y_test, s3)
      | Raise e => Raise e
      end.
Proof.
  do 7 eexists. split; [vm_compute; reflexivity|].
  split; [vm_compute; reflexivity|]. split; [vm_compute; reflexivity|].
  eapply (@test_partition_continues Toy.gen 4 3 2 0.5%float 10 1 0 3);
    vm_compute; reflexivity.
Defined.

